(** * LocalCodewindManager

    A shallow embedding of
    [dev/src/codewind/connection/local/LocalCodewindManager.ts]: the manager
    of the single local Codewind connection.  The manager object is a record
    of its two private fields; its [async] methods are computations in a small
    monad that threads the manager, collects the calls made to the operator
    and to the connection registry, and carries the settlement of the promise
    (resolved, rejected, or still pending).

    What is outside the file is taken from its use in the file:
    - the collaborators ([CLILifecycleWrapper], [ConnectionManager],
      [Requester]) answer through an environment [Env] that fixes what each
      call settles to; they do not call back into the manager;
    - [Log] calls and [vscode.window.setStatusBarMessage] only display text
      and are left out; the click on the [Help] button of a message is an
      operator action and is left out as well;
    - every method is run until nothing of it is left to run: [startCodewind]
      starts [connect] without awaiting it, and the embedding lets that
      [connect] finish before the next method starts;
    - a timer callback finishes before the next tick of the same timer;
    - JavaScript numbers are the rationals they denote. *)

From Stdlib Require Import ZArith QArith Qround List String DecimalString Bool Lia Lqa.
Import ListNotations.

(** ** Values *)

(** Modelled from the spec: the enum of [CodewindStates.ts], which is not in
    the file; section 3 of the specification gives the five states, and they
    are the five the file names. *)
Inductive CodewindStates : Type :=
| STOPPED
| STARTING
| STARTED
| STOPPING
| ERR_CONNECTING.

(** [===] on two states. *)
Definition state_eqb (a b : CodewindStates) : bool :=
  match a, b with
  | STOPPED, STOPPED | STARTING, STARTING | STARTED, STARTED
  | STOPPING, STOPPING | ERR_CONNECTING, ERR_CONNECTING => true
  | _, _ => false
  end.

(** A [vscode.Uri] is an object: [uriObj] is the identity of the object and
    [uriText] the address it holds.  Two objects may hold the same address. *)
Record Uri : Type := { uriObj : nat; uriText : string }.

(** [a !== b] on two [vscode.Uri] objects compares the objects, not the
    addresses they hold. *)
Definition strictNeq (a b : Uri) : bool := negb (Nat.eqb (uriObj a) (uriObj b)).

(** Modelled from the spec: the class [Connection], which is not in the file;
    section 3 gives it an address and an opaque identity, and the file reads
    its [url]. *)
Record Connection : Type := { connObj : nat; url : Uri }.

(** The two private fields of the manager. *)
Record Manager : Type := {
  _localConnection : option Connection;
  _state : CodewindStates
}.

(** [new LocalCodewindManager()]. *)
Definition newManager : Manager :=
  {| _localConnection := None; _state := STOPPED |}.

(** The getters. *)
Definition localConnection (this : Manager) : option Connection :=
  _localConnection this.

Definition state (this : Manager) : CodewindStates := _state this.

Definition isStarted (this : Manager) : bool :=
  state_eqb (_state this) STARTED || state_eqb (_state this) STOPPING.

(** What the manager does to the world around it, in the order it does it. *)
Inductive Event : Type :=
| OnChange (this : Manager)             (* CodewindEventListener.onChange(this) *)
| ShowCLIError (msg : string)           (* CLIWrapper.showCLIError *)
| ShowErrorMessage (msg : string) (items : list string)
| ShowWarningMessage (msg : string) (items : list string)
| RemoveConnection (c : Connection)     (* ConnectionManager.removeConnection *)
| Ping (address : string).              (* Requester.ping *)

(** ** Thrown values *)

(** What the file does with a thrown value: it builds one ([new Error]), asks
    [CLIWrapper.isCancellation] about it and prints it with
    [MCUtil.errToString].  Neither function is in the file. *)
Class Errors : Type := {
  Err : Type;
  newError : string -> Err;
  isCancellation : Err -> bool;
  errToString : Err -> string
}.

Section Monad.

Context {E : Errors}.

(** How an awaited promise settles.  [Pending] is a promise that has not
    settled in the time the embedding looks at. *)
Inductive Outcome (A : Type) : Type :=
| Resolved (a : A)
| Rejected (e : Err)
| Pending.

Arguments Resolved {A} a.
Arguments Rejected {A} e.
Arguments Pending {A}.

(** What the collaborators answer while one method runs. *)
Record Env : Type := {
  installAndStart : Outcome unit;            (* CLILifecycleWrapper.installAndStart() *)
  getCodewindUrl : Outcome (option Uri);     (* CLILifecycleWrapper.getCodewindUrl() *)
  stop : Outcome unit;                       (* CLILifecycleWrapper.stop() *)
  connectLocal : Uri -> Outcome Connection;  (* ConnectionManager.instance.connectLocal *)
  pingResult : nat -> bool;                  (* the answer of the n-th Requester.ping *)
  parsedObj : nat                            (* the object vscode.Uri.parse creates *)
}.

(** ** The monad of the methods *)

Definition Async (A : Type) : Type :=
  Env -> Manager -> Outcome A * Manager * list Event.

Definition ret {A} (a : A) : Async A :=
  fun _ this => (Resolved a, this, []).

Definition bind {A B} (c : Async A) (k : A -> Async B) : Async B :=
  fun env this =>
    match c env this with
    | (Resolved a, this1, ev1) =>
        let '(r, this2, ev2) := k a env this1 in (r, this2, ev1 ++ ev2)
    | (Rejected e, this1, ev1) => (Rejected e, this1, ev1)
    | (Pending, this1, ev1) => (Pending, this1, ev1)
    end.

Definition throw {A} (e : Err) : Async A :=
  fun _ this => (Rejected e, this, []).

(** [try { body } catch (err) { handler err }]. *)
Definition tryCatch {A} (body : Async A) (handler : Err -> Async A) : Async A :=
  fun env this =>
    match body env this with
    | (Rejected e, this1, ev1) =>
        let '(r, this2, ev2) := handler e env this1 in (r, this2, ev1 ++ ev2)
    | settled => settled
    end.

(** [await] of a collaborator's promise. *)
Definition await {A} (call : Env -> Outcome A) : Async A :=
  fun env this => (call env, this, []).

Definition emit (e : Event) : Async unit :=
  fun _ this => (Resolved tt, this, [e]).

Definition getThis : Async Manager :=
  fun _ this => (Resolved this, this, []).

Definition putThis (this' : Manager) : Async unit :=
  fun _ _ => (Resolved tt, this', []).

End Monad.

Arguments Resolved {E A} a.
Arguments Rejected {E A} e.
Arguments Pending {E A}.

Declare Scope async_scope.
Delimit Scope async_scope with async.
Notation "x <- c ;; k" := (bind c (fun x => k))
  (at level 61, c at next level, right associativity) : async_scope.
Notation "c ;; k" := (bind c (fun _ => k))
  (at level 61, right associativity) : async_scope.
Open Scope async_scope.

Section Methods.

Context {E : Errors}.

(** [this._localConnection = c]. *)
Definition setLocalConnection (c : option Connection) : Async unit :=
  this <- getThis ;;
  putThis {| _localConnection := c; _state := _state this |}.

(** ** The methods *)

Definition changeState (newState : CodewindStates) : Async unit :=
  this <- getThis ;;
  putThis {| _localConnection := _localConnection this; _state := newState |} ;;
  this' <- getThis ;;
  emit (OnChange this').

Definition connect (cwUrl : Uri) : Async unit :=
  tryCatch
    (conn <- await (fun env => connectLocal env cwUrl) ;;
     setLocalConnection (Some conn) ;;
     changeState STARTED)
    (fun err =>
       changeState ERR_CONNECTING ;;
       emit (ShowErrorMessage (errToString err) [])).

Definition startCodewindInner : Async Uri :=
  await installAndStart ;;
  tryCatch
    (cwUrl <- await getCodewindUrl ;;
     match cwUrl with
     | None => throw (newError "Could not determine Codewind URL")
     | Some u => ret u
     end)
    (fun err =>
       changeState ERR_CONNECTING ;;
       throw err).

Definition startCodewind : Async unit :=
  started <- tryCatch
    (cwUrl <- startCodewindInner ;; ret (Some cwUrl))
    (fun err =>
       (if negb (isCancellation err)
        then emit (ShowCLIError (errToString err))
        else ret tt) ;;
       ret None) ;;
  match started with
  | None => ret tt                  (* the [return] of the catch block *)
  | Some cwUrl => connect cwUrl
  end.

Definition stopCodewind : Async unit :=
  await stop ;;
  setLocalConnection None.

Definition refresh : Async bool :=
  cwUrl <- await getCodewindUrl ;;
  this <- getThis ;;
  match localConnection this, cwUrl with
  | Some conn, Some u =>
      if strictNeq u (url conn) then
        emit (RemoveConnection conn) ;;
        connect u ;;
        ret true
      else ret false
  | _, _ => ret false
  end.

(** [CHE_CW_URL]. *)
Definition CHE_CW_URL : string := "https://localhost:9090".

(** [`${n}`] for a number that is an integer. *)
Definition numberToString (n : Z) : string :=
  NilZero.string_of_int (Z.to_int n).

Definition onTheiaStartTimeout (failure : bool) (secsElapsed : Z) : Async unit :=
  let helpBtn := "Help"%string in
  let msg :=
    (if failure then
       "Codewind failed to come up after " ++ numberToString secsElapsed ++ " seconds. " ++
       "Check the status of the Codewind pod, and click " ++ helpBtn ++ " to open our documentation. " ++
       "Refresh the page to restart the connection process."
     else
       "Codewind is taking longer than usual to start -  Check the status of the Codewind pod, and click "
         ++ helpBtn ++ " to open our documentation.")%string in
  if failure
  then emit (ShowErrorMessage msg [helpBtn])
  else emit (ShowWarningMessage msg [helpBtn]).

(** The message [onTheiaStartTimeout(false, _)] shows. *)
Definition slowStartWarning : Event :=
  ShowWarningMessage
    "Codewind is taking longer than usual to start -  Check the status of the Codewind pod, and click Help to open our documentation."
    ["Help"%string].

(** [Math.round]: the nearest integer, a half going up. *)
Definition Math_round (x : Q) : Z := Qfloor (x + (1 # 2)).

(** [n > x] for a counter [n] and a number [x]. *)
Definition exceeds (n : nat) (x : Q) : bool :=
  negb (Qle_bool (inject_Z (Z.of_nat n)) x).

Section Waiting.

(** [timeoutS] and [delayS] are the constants 180 and 2 in the file; the
    polling is stated for any two integers, and
    [waitForCodewindToStartTheia] below fixes them as the file does.  The
    quotient is the exact one, with no rounding; for [delayS = 0] JavaScript
    has a quotient that is no rational, and the theorems take [0 < delayS]. *)
Variables timeoutS delayS : Z.

Definition maxTries : Q := inject_Z timeoutS / inject_Z delayS.

Definition longerThanUsualTries : Z := Math_round (maxTries / 2).

(** The callback of [setInterval], once per tick.  [tries] is the counter
    before the tick; [fuel] bounds the ticks the embedding lets pass, and the
    promise is [Pending] when they are used up before it is resolved. *)
Fixpoint interval (fuel : nat) (tries : nat) : Async bool :=
  match fuel with
  | O => fun _ this => (Pending, this, [])
  | S fuel' =>
      let tries := S tries in                                (* tries++ *)
      pingResult <- (emit (Ping CHE_CW_URL) ;;
                     await (fun env => Resolved (pingResult env tries))) ;;
      if pingResult : bool then
        ret true                                             (* resolve(true) *)
      else if exceeds tries maxTries then
        ret false                                            (* resolve(false) *)
      else if Z.eqb (Z.of_nat tries) longerThanUsualTries then
        onTheiaStartTimeout false (Z.of_nat tries * delayS) ;;
        interval fuel' tries
      else
        interval fuel' tries
  end.

(** [let tries = 0] and the promise built around the timer. *)
Definition waitingForReadyProm (fuel : nat) : Async bool :=
  interval fuel 0.

Definition waitForCodewindToStartTheiaWith (fuel : nat) : Async unit :=
  changeState STARTING ;;
  cheCwUrl <- await (fun env =>
    Resolved {| uriObj := parsedObj env; uriText := CHE_CW_URL |}) ;;
  isCodewindUp <- waitingForReadyProm fuel ;;
  if negb isCodewindUp then
    onTheiaStartTimeout true timeoutS ;;
    changeState ERR_CONNECTING
  else
    connect cheCwUrl.

End Waiting.

Definition waitForCodewindToStartTheia (fuel : nat) : Async unit :=
  waitForCodewindToStartTheiaWith 180 2 fuel.

(** ** Sequences of calls *)

(** A call of one of the public methods. *)
Inductive Op : Type :=
| OpStartCodewind
| OpConnect (cwUrl : Uri)
| OpStopCodewind
| OpRefresh
| OpWaitForCodewindToStartTheia (fuel : nat).

Definition exec (op : Op) : Async unit :=
  match op with
  | OpStartCodewind => startCodewind
  | OpConnect cwUrl => connect cwUrl
  | OpStopCodewind => stopCodewind
  | OpRefresh => refresh ;; ret tt
  | OpWaitForCodewindToStartTheia fuel => waitForCodewindToStartTheia fuel
  end.

(** The manager after a sequence of calls, each with what the collaborators
    answer during it.  A call that rejects leaves the manager as it was when
    the value was thrown. *)
Fixpoint run (script : list (Op * Env)) (this : Manager) : Manager :=
  match script with
  | [] => this
  | (op, env) :: rest =>
      let '(_, this', _) := exec op env this in run rest this'
  end.

(** ** What is read off a trace *)

Definition isPing (e : Event) : bool :=
  match e with Ping _ => true | _ => false end.

Definition isWarning (e : Event) : bool :=
  match e with ShowWarningMessage _ _ => true | _ => false end.

(** A message that tells the operator of an error. *)
Definition isError (e : Event) : bool :=
  match e with ShowErrorMessage _ _ | ShowCLIError _ => true | _ => false end.

Definition isOnChange (e : Event) : bool :=
  match e with OnChange _ => true | _ => false end.

Definition isRemoveConnection (e : Event) : bool :=
  match e with RemoveConnection _ => true | _ => false end.

Definition count (p : Event -> bool) (trace : list Event) : nat :=
  List.length (List.filter p trace).

(** The ticks a timer that starts with the counter at [tries] still has to
    run when no ping is answered: one for every value of the counter up to
    [floor maxTries], and the one after. *)
Definition ticksLeft (timeoutS delayS : Z) (tries : nat) : nat :=
  S (Z.to_nat (Qfloor (maxTries timeoutS delayS) - Z.of_nat tries)).

(** The pings made before the first warning, when there is a warning. *)
Fixpoint pingsBeforeWarning (trace : list Event) : option nat :=
  match trace with
  | [] => None
  | e :: rest =>
      if isWarning e then Some 0%nat
      else match pingsBeforeWarning rest with
           | Some n => Some (if isPing e then S n else n)
           | None => None
           end
  end.

End Methods.

(** ** Concrete collaborators, for the examples *)

(** Thrown values that are their own message; a cancellation is the value
    [cancelled]. *)
#[local] Instance textErrors : Errors := {|
  Err := string;
  newError := fun msg => msg;
  isCancellation := String.eqb "cancelled";
  errToString := fun msg => msg
|}.

Definition urlA : Uri := {| uriObj := 1; uriText := "http://127.0.0.1:10000" |}.
Definition urlB : Uri := {| uriObj := 2; uriText := "http://127.0.0.1:10001" |}.

(** Another object that holds the address of [urlA]. *)
Definition urlA' : Uri := {| uriObj := 3; uriText := "http://127.0.0.1:10000" |}.

Definition connA : Connection := {| connObj := 11; url := urlA |}.

(** Everything succeeds, the address query answers [address], a connection to
    [u] is a new object on [u], and no ping is answered. *)
Definition world (address : option Uri) : Env := {|
  installAndStart := Resolved tt;
  getCodewindUrl := Resolved address;
  stop := Resolved tt;
  connectLocal := fun u => Resolved {| connObj := 10 + uriObj u; url := u |};
  pingResult := fun _ => false;
  parsedObj := 0
|}.

(** As [world], with [connectLocal] refusing. *)
Definition worldRefusing (address : option Uri) : Env := {|
  installAndStart := Resolved tt;
  getCodewindUrl := Resolved address;
  stop := Resolved tt;
  connectLocal := fun _ => Rejected "connection refused"%string;
  pingResult := fun _ => false;
  parsedObj := 0
|}.

(** As [world], with the launch cancelled by the user. *)
Definition worldCancelled : Env := {|
  installAndStart := Rejected "cancelled"%string;
  getCodewindUrl := Resolved (Some urlA);
  stop := Resolved tt;
  connectLocal := fun u => Resolved {| connObj := 10 + uriObj u; url := u |};
  pingResult := fun _ => false;
  parsedObj := 0
|}.

(** As [world], with [CLILifecycleWrapper.stop] failing. *)
Definition worldStopFails : Env := {|
  installAndStart := Resolved tt;
  getCodewindUrl := Resolved (Some urlA);
  stop := Rejected "stop failed"%string;
  connectLocal := fun u => Resolved {| connObj := 10 + uriObj u; url := u |};
  pingResult := fun _ => false;
  parsedObj := 0
|}.


(** The manager once [startCodewind] has connected it to [urlA]. *)
Definition startedAtA : Manager :=
  {| _localConnection := Some connA; _state := STARTED |}.

(** As [world], with the launch failing. *)
Definition worldLaunchFails : Env := {|
  installAndStart := Rejected "docker is not running"%string;
  getCodewindUrl := Resolved (Some urlA);
  stop := Resolved tt;
  connectLocal := fun u => Resolved {| connObj := 10 + uriObj u; url := u |};
  pingResult := fun _ => false;
  parsedObj := 0
|}.

(** ** What the listeners are told *)

(** The manager that the last [onChange] of a trace carries. *)
Fixpoint lastOnChange (trace : list Event) : option Manager :=
  match trace with
  | [] => None
  | e :: rest =>
      match lastOnChange rest with
      | Some snapshot => Some snapshot
      | None => match e with OnChange snapshot => Some snapshot | _ => None end
      end
  end.

(** The states that the [onChange] calls of a trace carry, in order. *)
Fixpoint notifiedStates (trace : list Event) : list CodewindStates :=
  match trace with
  | [] => []
  | OnChange snapshot :: rest => _state snapshot :: notifiedStates rest
  | _ :: rest => notifiedStates rest
  end.

(** The states the methods of the file move to. *)
Definition isMovedTo (s : CodewindStates) : bool :=
  match s with
  | STARTING | STARTED | ERR_CONNECTING => true
  | STOPPED | STOPPING => false
  end.

(** The message [onTheiaStartTimeout(true, secsElapsed)] shows. *)
Definition startFailedError (secsElapsed : Z) : Event :=
  ShowErrorMessage
    ("Codewind failed to come up after " ++ numberToString secsElapsed ++ " seconds. " ++
     "Check the status of the Codewind pod, and click Help to open our documentation. " ++
     "Refresh the page to restart the connection process.")%string
    ["Help"%string].

(** The events of the timer: a ping, or a warning. *)
Definition quiet (e : Event) : bool := isPing e || isWarning e.

(** * Properties *)

(** ** The state query *)

Lemma state_eqb_eq (a b : CodewindStates) : state_eqb a b = true <-> a = b.
Proof.
  split.
  - destruct a, b; simpl; intro H; try reflexivity; discriminate H.
  - intros ->; destruct b; reflexivity.
Qed.

(** C9: [isStarted] answers true exactly in the states Started and Stopping;
    so a manager that is Stopping says it is started although its state is
    not Started. *)
Theorem isStarted_started_or_stopping (this : Manager) :
  (isStarted this = true <-> state this = STARTED \/ state this = STOPPING)
  /\ (state this = STOPPING -> isStarted this = true /\ state this <> STARTED).
Proof.
  unfold isStarted, state. split.
  - rewrite orb_true_iff, !state_eqb_eq. reflexivity.
  - intros ->. split; [reflexivity | discriminate].
Qed.

Section Properties.

Context {E : Errors}.

Implicit Types (env : Env) (this : Manager).

(** ** [connect] *)

Lemma connect_resolved env this cwUrl conn :
  connectLocal env cwUrl = Resolved conn ->
  connect cwUrl env this =
    (Resolved tt,
     {| _localConnection := Some conn; _state := STARTED |},
     [OnChange {| _localConnection := Some conn; _state := STARTED |}]).
Proof.
  intros H. unfold connect, tryCatch, bind, await. rewrite H. reflexivity.
Qed.

Lemma connect_rejected env this cwUrl err :
  connectLocal env cwUrl = Rejected err ->
  connect cwUrl env this =
    (Resolved tt,
     {| _localConnection := _localConnection this; _state := ERR_CONNECTING |},
     [OnChange {| _localConnection := _localConnection this; _state := ERR_CONNECTING |};
      ShowErrorMessage (errToString err) []]).
Proof.
  intros H. unfold connect, tryCatch, bind, await. rewrite H. reflexivity.
Qed.

Lemma connect_pending env this cwUrl :
  connectLocal env cwUrl = Pending ->
  connect cwUrl env this = (Pending, this, []).
Proof.
  intros H. unfold connect, tryCatch, bind, await. rewrite H. reflexivity.
Qed.

(** C6 (as amended): when [connectLocal] rejects, [connect] moves the state
    to ErrorConnecting, shows one error message and no other message, and
    leaves the bound connection as it was before the call; so no connection
    is bound afterwards when none was bound before. *)
Theorem connect_failure_keeps_connection env this cwUrl err :
  connectLocal env cwUrl = Rejected err ->
  let '(settled, this', trace) := connect cwUrl env this in
  settled = Resolved tt
  /\ state this' = ERR_CONNECTING
  /\ localConnection this' = localConnection this
  /\ filter isError trace = [ShowErrorMessage (errToString err) []]
  /\ count isWarning trace = 0%nat
  /\ (localConnection this = None -> localConnection this' = None).
Proof.
  intros H. rewrite (connect_rejected env this cwUrl err H).
  repeat split. simpl. auto.
Qed.

(** ** [startCodewind] *)

(** C8: when [installAndStart] rejects with a cancellation, [startCodewind]
    resolves with the manager as it was, and nothing is shown to the operator
    and no listener is told of a change. *)
Theorem startCodewind_cancelled_is_silent env this err :
  installAndStart env = Rejected err ->
  isCancellation err = true ->
  startCodewind env this = (Resolved tt, this, []).
Proof.
  intros Hinstall Hcancel.
  unfold startCodewind, startCodewindInner, tryCatch, bind, await.
  rewrite Hinstall. simpl. rewrite Hcancel. reflexivity.
Qed.

(** ** [stopCodewind] *)

(** C2 (as amended): when [CLILifecycleWrapper.stop] resolves, [stopCodewind]
    clears the bound connection and leaves the state as it was, with no call
    of [changeState]; when it rejects, [stopCodewind] rejects with the same
    value and leaves the connection and the state as they were. *)
Theorem stopCodewind_clears_on_success env this :
  (stop env = Resolved tt ->
   stopCodewind env this =
     (Resolved tt, {| _localConnection := None; _state := _state this |}, []))
  /\ (forall err, stop env = Rejected err ->
      stopCodewind env this = (Rejected err, this, [])).
Proof.
  unfold stopCodewind, bind, await. split.
  - intros ->. reflexivity.
  - intros err ->. reflexivity.
Qed.

(** ** [refresh] *)

Lemma refresh_no_address env this :
  getCodewindUrl env = Resolved None ->
  refresh env this = (Resolved false, this, []).
Proof.
  intros H. unfold refresh, bind, await, getThis. rewrite H. simpl.
  destruct (localConnection this); reflexivity.
Qed.

(** C10: when the address query answers no address, [refresh] answers false
    and changes nothing: the manager, with what is bound and its state, is
    as before, nothing is removed and [connect] is not called. *)
Theorem refresh_without_address env this :
  getCodewindUrl env = Resolved None ->
  refresh env this = (Resolved false, this, []).
Proof. exact (refresh_no_address env this). Qed.

Lemma refresh_unbound env this address :
  getCodewindUrl env = Resolved address ->
  localConnection this = None ->
  refresh env this = (Resolved false, this, []).
Proof.
  intros H Hnone. unfold refresh, bind, await, getThis. rewrite H. simpl.
  rewrite Hnone. reflexivity.
Qed.

Lemma refresh_same_object env this conn u :
  getCodewindUrl env = Resolved (Some u) ->
  localConnection this = Some conn ->
  uriObj u = uriObj (url conn) ->
  refresh env this = (Resolved false, this, []).
Proof.
  intros H Hconn Hobj. unfold refresh, bind, await, getThis. rewrite H. simpl.
  rewrite Hconn. unfold strictNeq. rewrite Hobj, Nat.eqb_refl. reflexivity.
Qed.

Lemma refresh_other_object env this conn u :
  getCodewindUrl env = Resolved (Some u) ->
  localConnection this = Some conn ->
  uriObj u <> uriObj (url conn) ->
  refresh env this =
    match connect u env this with
    | (Resolved _, this', trace) => (Resolved true, this', RemoveConnection conn :: trace)
    | (Rejected err, this', trace) => (Rejected err, this', RemoveConnection conn :: trace)
    | (Pending, this', trace) => (Pending, this', RemoveConnection conn :: trace)
    end.
Proof.
  intros H Hconn Hobj. unfold refresh, bind, await, getThis, emit. rewrite H. simpl.
  rewrite Hconn. unfold strictNeq.
  apply Nat.eqb_neq in Hobj. rewrite Hobj. simpl.
  destruct (connect u env this) as [[[ [] | err | ] this'] trace];
    simpl; rewrite ?app_nil_r; reflexivity.
Qed.

(** C5 (as amended): with a connection bound and an address answered that is
    not the address of the bound connection, [refresh] answers true, has the
    old connection removed once and calls [connect] on the new address: a
    connection that [connectLocal] resolves is bound and the state is Started,
    and when [connectLocal] rejects the old connection stays in the manager
    and the state is ErrorConnecting.  [refresh] answers false and changes
    nothing when no connection is bound, when no address is answered, and
    when the answer is the very [Uri] of the bound connection.  (An object is
    one address: [uriObj] determines [uriText] for the two objects compared.) *)
Theorem refresh_rebinds_on_new_address env this :
  (forall conn u,
     localConnection this = Some conn ->
     getCodewindUrl env = Resolved (Some u) ->
     (uriObj u = uriObj (url conn) -> uriText u = uriText (url conn)) ->
     uriText u <> uriText (url conn) ->
     (forall conn', connectLocal env u = Resolved conn' ->
        refresh env this =
          (Resolved true,
           {| _localConnection := Some conn'; _state := STARTED |},
           [RemoveConnection conn;
            OnChange {| _localConnection := Some conn'; _state := STARTED |}]))
     /\ (forall err, connectLocal env u = Rejected err ->
        refresh env this =
          (Resolved true,
           {| _localConnection := Some conn; _state := ERR_CONNECTING |},
           [RemoveConnection conn;
            OnChange {| _localConnection := Some conn; _state := ERR_CONNECTING |};
            ShowErrorMessage (errToString err) []])))
  /\ (forall address,
       getCodewindUrl env = Resolved address ->
       localConnection this = None ->
       refresh env this = (Resolved false, this, []))
  /\ (getCodewindUrl env = Resolved None ->
       refresh env this = (Resolved false, this, []))
  /\ (forall conn,
       localConnection this = Some conn ->
       getCodewindUrl env = Resolved (Some (url conn)) ->
       refresh env this = (Resolved false, this, [])).
Proof.
  split; [| split; [| split]].
  - intros conn u Hconn Hurl Hheap Htext.
    assert (Hobj : uriObj u <> uriObj (url conn)) by (intro Heq; auto).
    split.
    + intros conn' Hok.
      rewrite (refresh_other_object env this conn u Hurl Hconn Hobj).
      rewrite (connect_resolved env this u conn' Hok). reflexivity.
    + intros err Hfail.
      rewrite (refresh_other_object env this conn u Hurl Hconn Hobj).
      rewrite (connect_rejected env this u err Hfail).
      unfold localConnection in Hconn. rewrite Hconn. reflexivity.
  - intros address Hurl Hnone. exact (refresh_unbound env this address Hurl Hnone).
  - exact (refresh_no_address env this).
  - intros conn Hconn Hurl.
    exact (refresh_same_object env this conn (url conn) Hurl Hconn eq_refl).
Qed.

(** ** The polling of [waitForCodewindToStartTheia] *)

Lemma count_cons p e trace :
  count p (e :: trace) = ((if p e then 1 else 0) + count p trace)%nat.
Proof. unfold count. simpl. destruct (p e); reflexivity. Qed.

Lemma count_app p l1 l2 : count p (l1 ++ l2) = (count p l1 + count p l2)%nat.
Proof. unfold count. rewrite filter_app, length_app. reflexivity. Qed.

Ltac count_events :=
  rewrite ?count_cons, ?count_app; unfold count;
  cbn [List.filter Datatypes.length app isPing isWarning slowStartWarning Nat.add].

(** [n > x] looks at the integer part of [x] only. *)
Lemma exceeds_floor (n : nat) (x : Q) :
  exceeds n x = true <-> (Qfloor x < Z.of_nat n)%Z.
Proof.
  unfold exceeds. rewrite negb_true_iff. split.
  - intros Hle.
    destruct (Z.lt_ge_cases (Qfloor x) (Z.of_nat n)) as [Hlt | Hge]; [exact Hlt |].
    exfalso.
    assert (Hq : inject_Z (Z.of_nat n) <= x).
    { apply Qle_trans with (inject_Z (Qfloor x)).
      - rewrite <- Zle_Qle. exact Hge.
      - apply Qfloor_le. }
    apply Qle_bool_iff in Hq. congruence.
  - intros Hlt.
    destruct (Qle_bool (inject_Z (Z.of_nat n)) x) eqn:Hb; [| reflexivity].
    exfalso. apply Qle_bool_iff in Hb.
    apply Qfloor_resp_le in Hb. rewrite Qfloor_Z in Hb. lia.
Qed.

Lemma exceeds_floor_false (n : nat) (x : Q) :
  exceeds n x = false <-> (Z.of_nat n <= Qfloor x)%Z.
Proof.
  destruct (exceeds n x) eqn:Hb.
  - apply exceeds_floor in Hb. split; [discriminate | lia].
  - split; [| reflexivity]. intros _.
    destruct (Z.lt_ge_cases (Qfloor x) (Z.of_nat n)) as [Hlt | Hge]; [| exact Hge].
    apply exceeds_floor in Hlt. congruence.
Qed.

(** The floor the specification speaks of. *)
Lemma floor_maxTries (timeoutS delayS : Z) :
  Qfloor (maxTries timeoutS delayS) = (timeoutS / delayS)%Z.
Proof. unfold maxTries. symmetry. apply Zdiv_Qdiv. Qed.


Section Polling.

Variables timeoutS delayS : Z.

Lemma onTheiaStartTimeout_false secsElapsed env this :
  onTheiaStartTimeout false secsElapsed env this = (Resolved tt, this, [slowStartWarning]).
Proof. reflexivity. Qed.

(** One tick of the timer. *)
Lemma interval_S fuel tries env this :
  interval timeoutS delayS (S fuel) tries env this =
    if pingResult env (S tries) then (Resolved true, this, [Ping CHE_CW_URL])
    else if exceeds (S tries) (maxTries timeoutS delayS)
    then (Resolved false, this, [Ping CHE_CW_URL])
    else
      let '(settled, this', trace) := interval timeoutS delayS fuel (S tries) env this in
      (settled, this',
       Ping CHE_CW_URL ::
         (if Z.eqb (Z.of_nat (S tries)) (longerThanUsualTries timeoutS delayS)
          then [slowStartWarning] else []) ++ trace).
Proof.
  cbn [interval]. unfold bind at 1. unfold bind at 1.
  unfold emit at 1, await at 1. cbn [app].
  destruct (pingResult env (S tries)); [reflexivity |].
  destruct (exceeds (S tries) (maxTries timeoutS delayS)); [reflexivity |].
  destruct (Z.eqb (Z.of_nat (S tries)) (longerThanUsualTries timeoutS delayS)).
  - unfold bind. rewrite onTheiaStartTimeout_false.
    destruct (interval timeoutS delayS fuel (S tries) env this) as [[settled this'] trace].
    reflexivity.
  - destruct (interval timeoutS delayS fuel (S tries) env this) as [[settled this'] trace].
    reflexivity.
Qed.

(** The timer does not touch the manager. *)
Lemma interval_this fuel : forall tries env this,
  snd (fst (interval timeoutS delayS fuel tries env this)) = this.
Proof.
  induction fuel as [| fuel IH]; intros tries env this; [reflexivity |].
  rewrite interval_S.
  destruct (pingResult env (S tries)); [reflexivity |].
  destruct (exceeds (S tries) (maxTries timeoutS delayS)); [reflexivity |].
  specialize (IH (S tries) env this).
  destruct (interval timeoutS delayS fuel (S tries) env this) as [[settled this'] trace].
  exact IH.
Qed.

(** With no ping answered the timer runs [ticksLeft] more ticks and then
    resolves false. *)
Lemma interval_never_ready env this :
  (forall n, pingResult env n = false) ->
  forall fuel tries,
    (ticksLeft timeoutS delayS tries <= fuel)%nat ->
    exists trace,
      interval timeoutS delayS fuel tries env this = (Resolved false, this, trace)
      /\ count isPing trace = ticksLeft timeoutS delayS tries.
Proof.
  intros Hnever. unfold ticksLeft.
  induction fuel as [| fuel IH]; intros tries Hfuel; [lia |].
  rewrite interval_S, Hnever.
  destruct (exceeds (S tries) (maxTries timeoutS delayS)) eqn:Hgt.
  - apply exceeds_floor in Hgt. exists [Ping CHE_CW_URL]. split; [reflexivity |].
    count_events. lia.
  - apply exceeds_floor_false in Hgt.
    destruct (IH (S tries)) as [trace [Hrun Hcount]]; [lia |].
    rewrite Hrun. eexists. split; [reflexivity |].
    rewrite count_cons, count_app, Hcount.
    destruct (Z.eqb _ _); count_events; lia.
Qed.


(** The warning is shown at most once, and not at all once the counter has
    passed [longerThanUsualTries]. *)
Lemma interval_warns_once env this fuel : forall tries,
  let trace := snd (interval timeoutS delayS fuel tries env this) in
  (count isWarning trace <= 1)%nat
  /\ ((longerThanUsualTries timeoutS delayS <= Z.of_nat tries)%Z ->
      count isWarning trace = 0%nat).
Proof.
  induction fuel as [| fuel IH]; intros tries; cbn zeta.
  - simpl. unfold count. simpl. split; [lia | reflexivity].
  - rewrite interval_S.
    destruct (pingResult env (S tries)); [unfold count; simpl; split; [lia | reflexivity] |].
    destruct (exceeds (S tries) (maxTries timeoutS delayS));
      [unfold count; simpl; split; [lia | reflexivity] |].
    specialize (IH (S tries)). cbn zeta in IH. destruct IH as [IH1 IH0].
    destruct (interval timeoutS delayS fuel (S tries) env this) as [[settled this'] trace].
    cbn [snd] in *. rewrite count_cons, count_app. cbn [isPing Nat.add].
    destruct (Z.eqb_spec (Z.of_nat (S tries)) (longerThanUsualTries timeoutS delayS))
      as [Heq | Hneq].
    + rewrite IH0 by lia. unfold count. simpl. split; [lia | lia].
    + unfold count at 1 3. simpl. split; [exact IH1 |].
      intros Hpassed. apply IH0. lia.
Qed.



(** C3: with no ping answered, the promise resolves false after
    [floor (timeoutS / delayS) + 1] pings: the timer gives up on the first
    tick whose counter is greater than [maxTries], which is one tick after
    the [maxTries]-th ping. *)
Theorem never_ready_makes_one_ping_more env this fuel :
  (0 < delayS)%Z ->
  (0 <= timeoutS)%Z ->
  (forall n, pingResult env n = false) ->
  (Z.to_nat (timeoutS / delayS) + 1 <= fuel)%nat ->
  exists trace,
    waitingForReadyProm timeoutS delayS fuel env this = (Resolved false, this, trace)
    /\ count isPing trace = (Z.to_nat (timeoutS / delayS) + 1)%nat.
Proof.
  intros _ _ Hnever Hfuel. unfold waitingForReadyProm.
  assert (Hticks : ticksLeft timeoutS delayS 0 = (Z.to_nat (timeoutS / delayS) + 1)%nat).
  { unfold ticksLeft. rewrite floor_maxTries.
    change (Z.of_nat 0) with 0%Z. rewrite Z.sub_0_r. lia. }
  rewrite <- Hticks in *.
  exact (interval_never_ready env this Hnever fuel 0%nat Hfuel).
Qed.



End Polling.

(** ** Sequences of calls *)





End Properties.

(** * More of the methods *)

Section Starting.

Context {E : Errors}.

Implicit Types (env : Env) (this : Manager).

(** X1: a launch that fails, and is no cancellation, is shown once as a CLI
    error; the manager is not touched and no listener is told anything. *)
Theorem startCodewind_launch_failure env this err :
  installAndStart env = Rejected err ->
  isCancellation err = false ->
  startCodewind env this = (Resolved tt, this, [ShowCLIError (errToString err)]).
Proof.
  intros Hinstall Hcancel.
  unfold startCodewind, startCodewindInner, tryCatch, bind, await.
  rewrite Hinstall. simpl. rewrite Hcancel. reflexivity.
Qed.

(** X2: after a launch that went well, an address query that answers no
    address, or that rejects, moves the state to ErrorConnecting and tells
    the listeners once; the bound connection is kept, [connectLocal] is not
    asked, and the thrown value is shown as a CLI error unless it is a
    cancellation. *)
Theorem startCodewind_without_address env this :
  installAndStart env = Resolved tt ->
  let errored := {| _localConnection := _localConnection this; _state := ERR_CONNECTING |} in
  let shown err := if isCancellation err then [] else [ShowCLIError (errToString err)] in
  (getCodewindUrl env = Resolved None ->
   startCodewind env this =
     (Resolved tt, errored,
      OnChange errored :: shown (newError "Could not determine Codewind URL")))
  /\ (forall err, getCodewindUrl env = Rejected err ->
      startCodewind env this = (Resolved tt, errored, OnChange errored :: shown err)).
Proof.
  intros Hinstall. cbn zeta.
  unfold startCodewind, startCodewindInner, tryCatch, bind, await, throw.
  rewrite Hinstall. split.
  - intros ->. simpl. destruct (isCancellation _); reflexivity.
  - intros err ->. simpl. destruct (isCancellation err); reflexivity.
Qed.


(** X4: a [refresh] that has bound a connection to the [Uri] it was given
    is followed by a [refresh] that changes nothing, as long as the address
    query answers that same [Uri]. *)
Theorem refresh_twice env this conn u conn' :
  localConnection this = Some conn ->
  getCodewindUrl env = Resolved (Some u) ->
  uriObj u <> uriObj (url conn) ->
  connectLocal env u = Resolved conn' ->
  url conn' = u ->
  let '(settled, this', _) := refresh env this in
  settled = Resolved true
  /\ localConnection this' = Some conn'
  /\ refresh env this' = (Resolved false, this', []).
Proof.
  intros Hconn Hurl Hobj Hok Hsame.
  rewrite (refresh_other_object env this conn u Hurl Hconn Hobj).
  rewrite (connect_resolved env this u conn' Hok).
  split; [reflexivity | split; [reflexivity |]].
  apply (refresh_same_object env _ conn' u Hurl); [reflexivity |].
  rewrite Hsame. reflexivity.
Qed.

End Starting.

(** * What a call tells the world *)

Section Traces.

Context {E : Errors}.

Implicit Types (env : Env) (this : Manager) (trace : list Event).

Lemma lastOnChange_app trace1 trace2 :
  lastOnChange (trace1 ++ trace2) =
    match lastOnChange trace2 with
    | Some snapshot => Some snapshot
    | None => lastOnChange trace1
    end.
Proof.
  induction trace1 as [| e trace1 IH]; cbn [app lastOnChange].
  - destruct (lastOnChange trace2); reflexivity.
  - rewrite IH. destruct (lastOnChange trace2); reflexivity.
Qed.

Lemma notifiedStates_app trace1 trace2 :
  notifiedStates (trace1 ++ trace2) = notifiedStates trace1 ++ notifiedStates trace2.
Proof.
  induction trace1 as [| e trace1 IH]; [reflexivity |].
  destruct e; cbn [app notifiedStates]; rewrite IH; reflexivity.
Qed.

Lemma quiet_lastOnChange trace :
  forallb quiet trace = true -> lastOnChange trace = None.
Proof.
  induction trace as [| e trace IH]; [reflexivity |].
  cbn [forallb lastOnChange]. intros H. apply andb_true_iff in H as [He Hrest].
  rewrite (IH Hrest). destruct e; try reflexivity; discriminate He.
Qed.

Lemma quiet_notifiedStates trace :
  forallb quiet trace = true -> notifiedStates trace = [].
Proof.
  induction trace as [| e trace IH]; [reflexivity |].
  cbn [forallb]. intros H. apply andb_true_iff in H as [He Hrest].
  destruct e; cbn [notifiedStates]; try (exact (IH Hrest)); discriminate He.
Qed.

Lemma quiet_filter (p : Event -> bool) trace :
  (forall e, quiet e = true -> p e = false) ->
  forallb quiet trace = true -> filter p trace = [].
Proof.
  intros Hp. induction trace as [| e trace IH]; [reflexivity |].
  cbn [forallb filter]. intros H. apply andb_true_iff in H as [He Hrest].
  rewrite (Hp e He). exact (IH Hrest).
Qed.

Lemma quiet_no_error e : quiet e = true -> isError e = false.
Proof. destruct e; cbn; intros H; try reflexivity; discriminate H. Qed.

Lemma quiet_no_removal e : quiet e = true -> isRemoveConnection e = false.
Proof. destruct e; cbn; intros H; try reflexivity; discriminate H. Qed.

(** The timer pings and warns, and does nothing else. *)
Lemma interval_quiet timeoutS delayS fuel : forall tries env this,
  forallb quiet (snd (interval timeoutS delayS fuel tries env this)) = true.
Proof.
  induction fuel as [| fuel IH]; intros tries env this; [reflexivity |].
  rewrite interval_S.
  destruct (pingResult env (S tries)); [reflexivity |].
  destruct (exceeds (S tries) (maxTries timeoutS delayS)); [reflexivity |].
  specialize (IH (S tries) env this).
  destruct (interval timeoutS delayS fuel (S tries) env this) as [[settled this'] trace].
  cbn [snd] in *. cbn [forallb]. rewrite forallb_app, IH.
  destruct (Z.eqb _ _); reflexivity.
Qed.

Lemma onTheiaStartTimeout_true secsElapsed env this :
  onTheiaStartTimeout true secsElapsed env this =
    (Resolved tt, this, [startFailedError secsElapsed]).
Proof. reflexivity. Qed.

(** [waitForCodewindToStartTheia], by what the timer settles to. *)
Lemma waitForCodewindToStartTheiaWith_cases timeoutS delayS fuel env this :
  let starting := {| _localConnection := _localConnection this; _state := STARTING |} in
  let errored := {| _localConnection := _localConnection this; _state := ERR_CONNECTING |} in
  let cheCwUrl := {| uriObj := parsedObj env; uriText := CHE_CW_URL |} in
  waitForCodewindToStartTheiaWith timeoutS delayS fuel env this =
    match waitingForReadyProm timeoutS delayS fuel env starting with
    | (Resolved true, _, polled) =>
        let '(settled, this', trace) := connect cheCwUrl env starting in
        (settled, this', OnChange starting :: polled ++ trace)
    | (Resolved false, _, polled) =>
        (Resolved tt, errored,
         OnChange starting :: polled ++ [startFailedError timeoutS; OnChange errored])
    | (Rejected err, _, polled) => (Rejected err, starting, OnChange starting :: polled)
    | (Pending, _, polled) => (Pending, starting, OnChange starting :: polled)
    end.
Proof.
  cbn zeta. unfold waitForCodewindToStartTheiaWith, waitingForReadyProm.
  unfold bind at 1. unfold changeState at 1, bind, getThis, putThis, emit, await.
  cbn [app].
  match goal with
  | |- context [interval ?t ?d ?f ?n ?e ?m] =>
      pose proof (interval_this t d f n e m) as Hthis;
      destruct (interval t d f n e m) as [[settled this'] polled]
  end.
  cbn [fst snd] in Hthis. subst this'.
  destruct settled as [[|] | err |]; cbn [negb].
  - match goal with
    | |- context [connect ?u env ?m] =>
        destruct (connect u env m) as [[settled this'] trace]
    end.
    reflexivity.
  - rewrite onTheiaStartTimeout_true. reflexivity.
  - reflexivity.
  - reflexivity.
Qed.

Ltac split_settled :=
  repeat match goal with
  | |- context [match ?x with _ => _ end] =>
      lazymatch x with
      | context [match _ with _ => _ end] => fail
      | _ => destruct x eqn:?
      end; cbn
  end.

Ltac run_method :=
  unfold exec, startCodewind, startCodewindInner, stopCodewind, refresh, connect,
    tryCatch, bind, await, throw, ret, changeState, setLocalConnection,
    getThis, putThis, emit, localConnection;
  cbn; split_settled.

Ltac wait_cases env :=
  unfold exec, waitForCodewindToStartTheia;
  rewrite waitForCodewindToStartTheiaWith_cases; cbn zeta;
  unfold waitingForReadyProm;
  match goal with
  | |- context [interval ?t ?d ?f ?n ?e ?m] =>
      let Hquiet := fresh "Hquiet" in
      let Honce := fresh "Honce" in
      let settled := fresh "settled" in
      let polled := fresh "polled" in
      pose proof (interval_quiet t d f n e m) as Hquiet;
      pose proof (proj1 (interval_warns_once t d e m f n)) as Honce;
      destruct (interval t d f n e m) as [[settled ?] polled];
      cbn [snd] in Hquiet; cbn [snd] in Honce;
      destruct settled as [[|] | ? |]
  end;
  [ match goal with
    | |- context [connect ?u env ?m] =>
        let Hc := fresh "Hc" in
        destruct (connectLocal env u) as [? | ? |] eqn:Hc;
        [ rewrite (connect_resolved env m u _ Hc)
        | rewrite (connect_rejected env m u _ Hc)
        | rewrite (connect_pending env m u Hc) ]
    end | | | ].

Ltac quiet_facts :=
  match goal with
  | Hquiet : forallb quiet ?polled = true |- _ =>
      pose proof (quiet_filter isRemoveConnection polled quiet_no_removal Hquiet);
      pose proof (quiet_filter isError polled quiet_no_error Hquiet);
      pose proof (quiet_lastOnChange polled Hquiet);
      pose proof (quiet_notifiedStates polled Hquiet)
  end.

(** X8: a call has a connection removed from the registry only when it is
    [refresh], and then once, and the connection is the one that was bound
    before the call. *)
Theorem only_refresh_removes op env this :
  let '(_, _, trace) := exec op env this in
  filter isRemoveConnection trace = []
  \/ (op = OpRefresh
      /\ exists conn, localConnection this = Some conn
           /\ filter isRemoveConnection trace = [RemoveConnection conn]).
Proof.
  destruct op as [| cwUrl | | | fuel].
  - run_method; left; reflexivity.
  - run_method; left; reflexivity.
  - run_method; left; reflexivity.
  - run_method; try (left; reflexivity);
      right; (split; [reflexivity |]); eexists; (split; reflexivity).
  - wait_cases env; quiet_facts; left;
      cbn [filter isRemoveConnection]; rewrite ?filter_app;
      repeat match goal with H : _ = _ |- _ => rewrite H end; reflexivity.
Qed.

(** X5: after a call the state of the manager is the state that the last
    [onChange] of the call carried, or the state before the call when the
    call made no [onChange]; and apart from [stopCodewind], which clears the
    connection and tells no one, the whole manager is the one the listeners
    saw last. *)
Theorem listeners_know_the_state op env this :
  let '(_, this', trace) := exec op env this in
  let told := match lastOnChange trace with Some snapshot => snapshot | None => this end in
  state this' = state told /\ (op <> OpStopCodewind -> this' = told).
Proof.
  destruct op as [| cwUrl | | | fuel].
  - run_method; split; try reflexivity; intros _; destruct this; reflexivity.
  - run_method; split; try reflexivity; intros _; destruct this; reflexivity.
  - run_method; split; try reflexivity; intros H; contradiction H; reflexivity.
  - run_method; split; try reflexivity; intros _; destruct this; reflexivity.
  - wait_cases env; quiet_facts; cbn zeta;
      change (OnChange ?s :: ?l) with ([OnChange s] ++ l);
      rewrite ?lastOnChange_app;
      repeat match goal with H : lastOnChange _ = None |- _ => rewrite H; clear H end;
      cbn [lastOnChange app];
      split; try reflexivity; intros _; reflexivity.
Qed.

Lemma exec_moves_to op env this :
  let '(_, this', trace) := exec op env this in
  forallb isMovedTo (notifiedStates trace) = true
  /\ (state this' = state this \/ isMovedTo (state this') = true).
Proof.
  destruct op as [| cwUrl | | | fuel].
  - run_method; split; try reflexivity; auto.
  - run_method; split; try reflexivity; auto.
  - run_method; split; try reflexivity; auto.
  - run_method; split; try reflexivity; auto.
  - wait_cases env; quiet_facts;
      cbn [notifiedStates]; rewrite ?notifiedStates_app;
      repeat match goal with H : notifiedStates _ = [] |- _ => rewrite H; clear H end;
      cbn; split; try reflexivity; auto.
Qed.

(** X6: the methods of the file move the state to Starting, Started and
    ErrorConnecting only: no [onChange] of a call carries Stopped or
    Stopping, and after any sequence of calls the state is the one before
    the sequence or one of the three. *)
Theorem methods_move_to_three_states :
  (forall op env this,
     let '(_, this', trace) := exec op env this in
     forallb isMovedTo (notifiedStates trace) = true
     /\ (state this' = state this \/ isMovedTo (state this') = true))
  /\ (forall script this,
       state (run script this) = state this
       \/ isMovedTo (state (run script this)) = true).
Proof.
  split; [exact exec_moves_to |].
  induction script as [| [op env] rest IH]; intros this; [left; reflexivity |].
  cbn [run].
  pose proof (exec_moves_to op env this) as Hstep.
  destruct (exec op env this) as [[settled this'] trace].
  destruct Hstep as [_ Hstep].
  destruct (IH this') as [Hsame | Hmoved]; [| right; exact Hmoved].
  rewrite Hsame. exact Hstep.
Qed.

End Traces.

(** * More of the timer *)

Lemma longerThanUsualTries_div (timeoutS delayS : Z) :
  (0 < delayS)%Z ->
  longerThanUsualTries timeoutS delayS = ((timeoutS + delayS) / (2 * delayS))%Z.
Proof.
  intros Hd. unfold longerThanUsualTries, Math_round, maxTries.
  rewrite Zdiv_Qdiv. apply Qfloor_comp.
  rewrite inject_Z_plus, inject_Z_mult. change (inject_Z 2) with 2.
  field. intros H. unfold Qeq in H. simpl in H. lia.
Qed.


Section Timer.
Context {E : Errors}.
Variables timeoutS delayS : Z.
Implicit Types (env : Env) (this : Manager).










(** X13: the ping after which the warning is shown is
    [floor ((timeoutS + delayS) / (2 * delayS))]: the number [k] with
    [(2k - 1) * delayS <= timeoutS < (2k + 1) * delayS], half of [maxTries]
    with a half going up. *)
Theorem longerThanUsualTries_is_half_rounded :
  (0 < delayS)%Z ->
  let k := longerThanUsualTries timeoutS delayS in
  k = ((timeoutS + delayS) / (2 * delayS))%Z
  /\ ((2 * k - 1) * delayS <= timeoutS < (2 * k + 1) * delayS)%Z.
Proof.
  intros Hd. cbn zeta. rewrite (longerThanUsualTries_div timeoutS delayS Hd).
  split; [reflexivity |].
  pose proof (Z.div_mod (timeoutS + delayS) (2 * delayS) ltac:(lia)) as Hdm.
  pose proof (Z.mod_pos_bound (timeoutS + delayS) (2 * delayS) ltac:(lia)) as Hb.
  nia.
Qed.



End Timer.


(** * The examples *)

(** The constants of the file: 90 tries, the warning after the 45th ping. *)
Example theia_constants :
  Qfloor (maxTries 180 2) = 90%Z /\ longerThanUsualTries 180 2 = 45%Z.
Proof. split; reflexivity. Qed.

(** With no ping answered, [waitForCodewindToStartTheia] pings 91 times,
    warns after the 45th ping and ends in ErrorConnecting. *)
Example theia_never_ready :
  let '(settled, this', trace) := waitForCodewindToStartTheia 91 (world None) newManager in
  settled = Resolved tt
  /\ this' = {| _localConnection := None; _state := ERR_CONNECTING |}
  /\ count isPing trace = 91%nat
  /\ pingsBeforeWarning trace = Some 45%nat
  /\ count isError trace = 1%nat.
Proof. vm_compute. repeat split. Qed.

(** C9 at a manager that is stopping. *)
Lemma isStarted_while_stopping :
  isStarted {| _localConnection := Some connA; _state := STOPPING |} = true
  /\ state {| _localConnection := Some connA; _state := STOPPING |} <> STARTED.
Proof.
  apply (proj2 (isStarted_started_or_stopping
                  {| _localConnection := Some connA; _state := STOPPING |})).
  reflexivity.
Defined.

(** C10 at a started manager. *)
Lemma refresh_without_address_started :
  refresh (world None) startedAtA = (Resolved false, startedAtA, []).
Proof. apply (refresh_without_address (world None) startedAtA). reflexivity. Defined.

(** C8 at a new manager. *)
Lemma startCodewind_cancelled_new :
  startCodewind worldCancelled newManager = (Resolved tt, newManager, []).
Proof.
  apply (startCodewind_cancelled_is_silent worldCancelled newManager "cancelled"%string);
    reflexivity.
Defined.

(** C6 at a new manager: no connection before, none after. *)
Lemma connect_failure_new :
  let '(settled, this', trace) := connect urlA (worldRefusing None) newManager in
  settled = Resolved tt
  /\ state this' = ERR_CONNECTING
  /\ localConnection this' = localConnection newManager
  /\ filter isError trace = [ShowErrorMessage "connection refused" []]
  /\ count isWarning trace = 0%nat
  /\ (localConnection newManager = None -> localConnection this' = None).
Proof.
  exact (connect_failure_keeps_connection (worldRefusing None) newManager urlA
           "connection refused"%string eq_refl).
Defined.

(** C6 as stated fails where a connection is bound before the call: after a
    [connect] that fails, and after a [refresh] whose [connect] fails, the
    manager still holds the connection to [urlA]. *)
Lemma connect_failure_leaves_old_connection :
  (let '(_, this', _) := connect urlB (worldRefusing None) startedAtA in
   state this' = ERR_CONNECTING /\ localConnection this' = Some connA)
  /\ (let '(_, this', trace) := refresh (worldRefusing (Some urlB)) startedAtA in
      state this' = ERR_CONNECTING /\ localConnection this' = Some connA
      /\ filter isRemoveConnection trace = [RemoveConnection connA]).
Proof. vm_compute. repeat split. Qed.

(** C2 with [stop] resolving. *)
Lemma stopCodewind_started :
  stopCodewind (world None) startedAtA =
    (Resolved tt, {| _localConnection := None; _state := STARTED |}, []).
Proof.
  apply (proj1 (stopCodewind_clears_on_success (world None) startedAtA)). reflexivity.
Defined.

(** C2 as stated fails: when [stop] rejects the connection stays bound, and
    when it resolves the state is still Started. *)
Lemma stopCodewind_no_transition :
  stopCodewind worldStopFails startedAtA = (Rejected "stop failed"%string, startedAtA, [])
  /\ state (snd (fst (stopCodewind (world None) startedAtA))) = STARTED.
Proof. split; reflexivity. Qed.

(** C5 at a started manager and a new address that can be connected to. *)
Lemma refresh_rebinds_B :
  refresh (world (Some urlB)) startedAtA =
    (Resolved true,
     {| _localConnection := Some {| connObj := 12; url := urlB |}; _state := STARTED |},
     [RemoveConnection connA;
      OnChange {| _localConnection := Some {| connObj := 12; url := urlB |};
                  _state := STARTED |}]).
Proof.
  refine (proj1 (proj1 (refresh_rebinds_on_new_address (world (Some urlB)) startedAtA)
                   connA urlB eq_refl eq_refl _ _) _ eq_refl).
  - intros Hobj. discriminate Hobj.
  - intros Htext. discriminate Htext.
Defined.

(** C5 as stated fails: [refresh] answers true although [connect] fails and
    the old connection is still the one in the manager; and it answers true
    for another [Uri] object that holds the address already bound. *)
Lemma refresh_true_without_new_connection :
  refresh (worldRefusing (Some urlB)) startedAtA =
    (Resolved true,
     {| _localConnection := Some connA; _state := ERR_CONNECTING |},
     [RemoveConnection connA;
      OnChange {| _localConnection := Some connA; _state := ERR_CONNECTING |};
      ShowErrorMessage "connection refused" []])
  /\ (uriText urlA' = uriText (url connA)
      /\ fst (fst (refresh (world (Some urlA')) startedAtA)) = Resolved true).
Proof. repeat split. Qed.



(** C3 at 10 seconds and a delay of 1: 11 pings where [maxTries] is 10. *)
Lemma never_ready_10_1_makes_11_pings :
  exists trace,
    waitingForReadyProm 10 1 11 (world None) newManager = (Resolved false, newManager, trace)
    /\ count isPing trace = 11%nat.
Proof.
  apply (never_ready_makes_one_ping_more 10 1 (world None) newManager 11);
    [lia | lia | reflexivity | vm_compute; lia].
Defined.



(** X1 at a launch that fails. *)
Lemma startCodewind_launch_failure_new :
  startCodewind worldLaunchFails newManager =
    (Resolved tt, newManager, [ShowCLIError "docker is not running"]).
Proof.
  apply (startCodewind_launch_failure worldLaunchFails newManager
           "docker is not running"%string); reflexivity.
Defined.

(** X2 at a started manager and no address. *)
Lemma startCodewind_without_address_started :
  startCodewind (world None) startedAtA =
    (Resolved tt,
     {| _localConnection := Some connA; _state := ERR_CONNECTING |},
     [OnChange {| _localConnection := Some connA; _state := ERR_CONNECTING |};
      ShowCLIError "Could not determine Codewind URL"]).
Proof.
  apply (proj1 (startCodewind_without_address (world None) startedAtA eq_refl)).
  reflexivity.
Defined.


(** X4 at a started manager and a new address. *)
Lemma refresh_twice_B :
  let '(settled, this', _) := refresh (world (Some urlB)) startedAtA in
  settled = Resolved true
  /\ localConnection this' = Some {| connObj := 12; url := urlB |}
  /\ refresh (world (Some urlB)) this' = (Resolved false, this', []).
Proof.
  apply (refresh_twice (world (Some urlB)) startedAtA connA urlB
           {| connObj := 12; url := urlB |});
    [reflexivity | reflexivity | discriminate | reflexivity | reflexivity].
Defined.





(** X13 at the constants of the file. *)
Lemma longerThanUsualTries_180_2 :
  let k := longerThanUsualTries 180 2 in
  k = ((180 + 2) / (2 * 2))%Z /\ ((2 * k - 1) * 2 <= 180 < (2 * k + 1) * 2)%Z.
Proof.
  apply (longerThanUsualTries_is_half_rounded 180 2). lia.
Defined.



(** X5 at a [refresh] that binds a new connection. *)
Lemma listeners_know_after_refresh :
  let '(_, this', trace) := exec OpRefresh (world (Some urlB)) startedAtA in
  this' = match lastOnChange trace with
          | Some snapshot => snapshot
          | None => startedAtA
          end.
Proof.
  apply (proj2 (listeners_know_the_state OpRefresh (world (Some urlB)) startedAtA)).
  discriminate.
Defined.
